(** * Route plotter: position worker, track sampler and follow camera

    A shallow embedding of the smoothing core of the route animator:
    the two versions of [position-worker.js] (the plain one and the one
    with [DEBUG] logging and bracket interpolation), and the parts of
    [unified-animation.js] that sample the track, set the playback speed
    and place the follow camera.

    Numbers.  A JavaScript number is modelled as an exact rational [Q]:
    every finite double is a rational, [+ - * /] are exact, comparisons
    are the boolean tests of [QArith].  Rounding, [NaN] and the
    infinities are outside that model; what is proved on it is the
    control flow, the branches taken and bounds that rounding keeps.
    Where rounding decides, as for the loops of [normalizeBearing] on
    large arguments, module [Double] repeats the code on the kernel's
    binary64 floats.  The transcendental functions of [Math] are not
    computable on [Q]; they are an interface [MathLib] that the
    definitions take as a parameter. *)

From Stdlib Require Import QArith Qabs Qround Qminmax ZArith List Bool Lia Lqa String.
From Corelib Require Import PrimFloat.
Import ListNotations.

Local Open Scope Q_scope.

(** ** JavaScript numbers *)

Module JS.

(** [a < b], [a > b], [a <= b], [a >= b] and [a === b] on numbers. *)
Definition lt (a b : Q) : bool := negb (Qle_bool b a).
Definition gt (a b : Q) : bool := lt b a.
Definition le (a b : Q) : bool := Qle_bool a b.
Definition ge (a b : Q) : bool := le b a.
Definition eqb (a b : Q) : bool := Qeq_bool a b.

(** [x || d] where [x] is a number or [undefined]: [undefined] and [0]
    are falsy. *)
Definition or_num (x : option Q) (d : Q) : Q :=
  match x with
  | Some v => if eqb v 0 then d else v
  | None => d
  end.

End JS.

(** ** The [Math] object

    [Math.sin], [Math.cos], ... are supplied by the JavaScript runtime.
    Nothing below depends on what they return. *)

Class MathLib : Type := {
  Math_PI : Q;
  Math_sin : Q -> Q;
  Math_cos : Q -> Q;
  Math_tan : Q -> Q;
  Math_log : Q -> Q;
  Math_exp : Q -> Q;
  Math_atan : Q -> Q;
  Math_atan2 : Q -> Q -> Q;
  Math_acos : Q -> Q;
  Math_sqrt : Q -> Q;
  Math_pow : Q -> Q -> Q
}.

(** ** position-worker.js: configuration and state *)

Record Vec2 : Type := mkVec2 { vx : Q; vy : Q }.

(** The [position] object of a worker message.  A raw fix carries
    [lng], [lat] and possibly [bearing]; the animation controller also
    sends [t], [targetLng], [targetLat] and [targetBearing].  An absent
    field is [None].  The smoothed position the worker stores is
    [{lng, lat}] alone. *)
Record Position : Type := mkPosition {
  lng : Q;
  lat : Q;
  bearing : option Q;
  t : option Q;
  targetLng : option Q;
  targetLat : option Q;
  targetBearing : option Q
}.

Definition lngLat (x y : Q) : Position :=
  mkPosition x y None None None None None.

(** The module-level [state] of the worker; [st_position] is [null]
    until the first fix. *)
Record State : Type := mkState {
  st_position : option Position;
  st_velocity : Vec2;
  st_acceleration : Vec2;
  st_bearing : Q;
  st_speed : Q;
  st_lastTimestamp : Q;
  st_lastValidBearing : Q
}.

Definition initialState : State :=
  mkState None (mkVec2 0 0) (mkVec2 0 0) 0 0 0 0.

Module CONFIG.
Definition maxAcceleration : Q := 3.
Definition maxSpeed : Q := 55.
Definition minSpeedThreshold : Q := 1 # 10.
Definition bearingThreshold : Q := 2.
Definition earthRadius : Q := 6371000.
Definition positionSmoothing : Q := 85 # 100.
Definition bearingSmoothing : Q := 75 # 100.
Definition speedSmoothing : Q := 8 # 10.
Definition mercatorScale `{MathLib} : Q := 1 / (2 * Math_PI).
Definition maxLatitude : Q := 85051129 # 1000000.
End CONFIG.

(** ** GeoMath.normalizeBearing

    [while (bearing > 360) bearing -= 360;
     while (bearing < 0) bearing += 360;
     return bearing;]

    Each loop is a recursion on a fuel counter; running out of fuel is
    [None]. *)

Fixpoint normalizeBearing_down (fuel : nat) (b : Q) : option Q :=
  if JS.gt b 360 then
    match fuel with
    | O => None
    | S fuel' => normalizeBearing_down fuel' (b - 360)
    end
  else Some b.

Fixpoint normalizeBearing_up (fuel : nat) (b : Q) : option Q :=
  if JS.lt b 0 then
    match fuel with
    | O => None
    | S fuel' => normalizeBearing_up fuel' (b + 360)
    end
  else Some b.

Definition normalizeBearing_fuel (fuel : nat) (b : Q) : option Q :=
  match normalizeBearing_down fuel b with
  | Some b' => normalizeBearing_up fuel b'
  | None => None
  end.

(** A number of iterations that suffices for either loop:
    [floor (|b| / 360) + 1]. *)
Definition normalizeBearing_bound (b : Q) : nat :=
  S (Z.to_nat (Z.abs (Qnum b) / (360 * Zpos (Qden b)))).

(** The function itself, run with that much fuel
    ([normalizeBearing_fuel_bound] shows the fuel is never exhausted). *)
Definition normalizeBearing (b : Q) : Q :=
  match normalizeBearing_fuel (normalizeBearing_bound b) b with
  | Some r => r
  | None => b
  end.

(** The data of a message to the worker and the reply it posts. *)
Record MessageData : Type := mkMessageData {
  md_position : option Position;
  md_timestamp : Q
}.

Inductive Reply : Type :=
| ErrorReply (error : string)
| PoseReply (position : option Position) (bearing speed : Q)
            (velocity : Vec2) (timestamp : Q).

(** ** GeoMath and Physics

    Both versions of the worker carry the same text for [CONFIG],
    [GeoMath] and the first five functions of [Physics]; the version with
    [DEBUG] adds [lerpPosition] and [slerpPosition]. *)

Import CONFIG.

Section Worker.

Context `{M : MathLib}.

Definition toRadians (degrees : Q) : Q := degrees * (Math_PI / 180).

Definition toDegrees (radians : Q) : Q := radians * (180 / Math_PI).

Definition toMercator (lng lat : Q) : Vec2 :=
  let x := lng * mercatorScale in
  let y := Math_log (Math_tan (Math_PI / 4 + toRadians lat / 2)) * mercatorScale in
  mkVec2 x y.

Definition fromMercator (x y : Q) : Position :=
  let lng := x / mercatorScale in
  let lat := toDegrees (2 * Math_atan (Math_exp (y / mercatorScale)) - Math_PI / 2) in
  lngLat lng lat.

Definition calculateDistance (pos1 pos2 : Position) : Q :=
  let phi1 := toRadians (lat pos1) in
  let phi2 := toRadians (lat pos2) in
  let dphi := toRadians (lat pos2 - lat pos1) in
  let dlambda := toRadians (lng pos2 - lng pos1) in
  let a := Math_sin (dphi / 2) * Math_sin (dphi / 2) +
           Math_cos phi1 * Math_cos phi2 *
           Math_sin (dlambda / 2) * Math_sin (dlambda / 2) in
  let c := 2 * Math_atan2 (Math_sqrt a) (Math_sqrt (1 - a)) in
  earthRadius * c.

Definition calculateBearing (pos1 pos2 : Position) : Q :=
  let phi1 := toRadians (lat pos1) in
  let phi2 := toRadians (lat pos2) in
  let lambda1 := toRadians (lng pos1) in
  let lambda2 := toRadians (lng pos2) in
  let y := Math_sin (lambda2 - lambda1) * Math_cos phi2 in
  let x := Math_cos phi1 * Math_sin phi2 -
           Math_sin phi1 * Math_cos phi2 * Math_cos (lambda2 - lambda1) in
  normalizeBearing (toDegrees (Math_atan2 y x)).

Definition smooth (current target factor : Q) : Q :=
  current + (target - current) * factor.

(** The local [diff] of [smoothBearing] after the wraparound step. *)
Definition smoothBearing_diff (current target : Q) : Q :=
  let diff := target - current in
  if JS.gt (Qabs diff) 180 then
    (if JS.gt diff 0 then diff - 360 else diff + 360)
  else diff.

Definition smoothBearing (current target factor : Q) : Q :=
  let diff := smoothBearing_diff current target in
  normalizeBearing (current + diff * factor).

Definition updateVelocity (oldPos newPos : Position) (deltaTime : Q) : Vec2 :=
  let merc1 := toMercator (lng oldPos) (lat oldPos) in
  let merc2 := toMercator (lng newPos) (lat newPos) in
  mkVec2 ((vx merc2 - vx merc1) / deltaTime)
         ((vy merc2 - vy merc1) / deltaTime).

Definition updateAcceleration (oldVel newVel : Vec2) (deltaTime : Q) : Vec2 :=
  mkVec2 ((vx newVel - vx oldVel) / deltaTime)
         ((vy newVel - vy oldVel) / deltaTime).

Definition clampAcceleration (acc : Vec2) : Vec2 :=
  let magnitude := Math_sqrt (vx acc * vx acc + vy acc * vy acc) in
  if JS.gt magnitude maxAcceleration then
    let scale := maxAcceleration / magnitude in
    mkVec2 (vx acc * scale) (vy acc * scale)
  else acc.

Definition lerpPosition (pos1 pos2 : Position) (t : Q) : Position :=
  lngLat (lng pos1 + (lng pos2 - lng pos1) * t)
         (lat pos1 + (lat pos2 - lat pos1) * t).

(** The [dot] of [slerpPosition]: the scalar product of the two points
    as unit vectors. *)
Definition slerp_dot (pos1 pos2 : Position) : Q :=
  let phi1 := toRadians (90 - lat pos1) in
  let theta1 := toRadians (lng pos1) in
  let phi2 := toRadians (90 - lat pos2) in
  let theta2 := toRadians (lng pos2) in
  let x1 := Math_sin phi1 * Math_cos theta1 in
  let y1 := Math_sin phi1 * Math_sin theta1 in
  let z1 := Math_cos phi1 in
  let x2 := Math_sin phi2 * Math_cos theta2 in
  let y2 := Math_sin phi2 * Math_sin theta2 in
  let z2 := Math_cos phi2 in
  x1 * x2 + y1 * y2 + z1 * z2.

Definition slerpPosition (pos1 pos2 : Position) (t : Q) : Position :=
  let phi1 := toRadians (90 - lat pos1) in
  let theta1 := toRadians (lng pos1) in
  let phi2 := toRadians (90 - lat pos2) in
  let theta2 := toRadians (lng pos2) in
  let x1 := Math_sin phi1 * Math_cos theta1 in
  let y1 := Math_sin phi1 * Math_sin theta1 in
  let z1 := Math_cos phi1 in
  let x2 := Math_sin phi2 * Math_cos theta2 in
  let y2 := Math_sin phi2 * Math_sin theta2 in
  let z2 := Math_cos phi2 in
  let dot := slerp_dot pos1 pos2 in
  if JS.gt dot (9999 # 10000) then lerpPosition pos1 pos2 t
  else
    let omega := Math_acos (Qmax (-1) (Qmin 1 dot)) in
    let sinOmega := Math_sin omega in
    let factor1 := Math_sin ((1 - t) * omega) / sinOmega in
    let factor2 := Math_sin (t * omega) / sinOmega in
    let x := x1 * factor1 + x2 * factor2 in
    let y := y1 * factor1 + y2 * factor2 in
    let z := z1 * factor1 + z2 * factor2 in
    let phi := Math_acos z in
    let theta := Math_atan2 y x in
    lngLat (toDegrees theta) (90 - toDegrees phi).

(** ** processPosition

    [state] is the module-level object the function mutates and
    returns; here the state before is an argument and the state after
    is the result. *)

(** The version without [DEBUG]: every message is a raw fix. *)
Definition processPosition (state : State) (newPosition : Position) (timestamp : Q) : State :=
  match st_position state with
  | None =>
      (* if (!state.position) *)
      mkState (Some newPosition) (st_velocity state) (st_acceleration state)
              (st_bearing state) (st_speed state) timestamp
              (JS.or_num (bearing newPosition) 0)
  | Some position =>
      let deltaTime := (timestamp - st_lastTimestamp state) / 1000 in
      if JS.le deltaTime 0 then state
      else
        let distance := calculateDistance position newPosition in
        let moved := JS.gt distance minSpeedThreshold in
        let newBearing :=
          if moved then calculateBearing position newPosition
          else st_lastValidBearing state in
        let lastValidBearing' :=
          if moved then newBearing else st_lastValidBearing state in
        let newVelocity := updateVelocity position newPosition deltaTime in
        let newAcceleration :=
          updateAcceleration (st_velocity state) newVelocity deltaTime in
        let velocity :=
          mkVec2 (smooth (vx (st_velocity state)) (vx newVelocity) speedSmoothing)
                 (smooth (vy (st_velocity state)) (vy newVelocity) speedSmoothing) in
        let acceleration := clampAcceleration newAcceleration in
        let bearing' := smoothBearing (st_bearing state) newBearing bearingSmoothing in
        let speed := distance / deltaTime in
        let speed' := if JS.gt speed maxSpeed then maxSpeed else speed in
        let position' :=
          lngLat (smooth (lng position) (lng newPosition) positionSmoothing)
                 (smooth (lat position) (lat newPosition) positionSmoothing) in
        mkState (Some position') velocity acceleration bearing' speed'
                timestamp lastValidBearing'
  end.

(** The local [interpolatedBearing] of the interpolation branch, before
    it is normalized. *)
Definition interpolateBearing (sourceBearing targetBearing t : Q) : Q :=
  if JS.gt (Qabs (targetBearing - sourceBearing)) 180 then
    let adjustedTarget :=
      if JS.gt targetBearing sourceBearing then targetBearing - 360
      else targetBearing + 360 in
    sourceBearing + (adjustedTarget - sourceBearing) * t
  else sourceBearing + (targetBearing - sourceBearing) * t.

(** The version with [DEBUG]: a message with [t], [targetLng] and
    [targetLat] is a bracket interpolation request; any other message is
    a raw fix, handled by the same statements as above.  The calls of
    [debugLog] only write to the console and are left out. *)
Definition processPosition_debug (state : State) (newPosition : Position) (timestamp : Q) : State :=
  match t newPosition, targetLng newPosition, targetLat newPosition with
  | Some t_, Some targetLng_, Some targetLat_ =>
      let sourcePos := lngLat (lng newPosition) (lat newPosition) in
      let targetPos := lngLat targetLng_ targetLat_ in
      let interpolatedPos := slerpPosition sourcePos targetPos t_ in
      let sourceBearing := JS.or_num (bearing newPosition) 0 in
      let targetBearing_ := JS.or_num (targetBearing newPosition) sourceBearing in
      let interpolatedBearing :=
        normalizeBearing (interpolateBearing sourceBearing targetBearing_ t_) in
      mkState (Some interpolatedPos) (st_velocity state) (st_acceleration state)
              interpolatedBearing (st_speed state) timestamp
              (st_lastValidBearing state)
  | _, _, _ =>
      match st_position state with
      | None =>
          mkState (Some newPosition) (st_velocity state) (st_acceleration state)
                  (st_bearing state) (st_speed state) timestamp
                  (JS.or_num (bearing newPosition) 0)
      | Some position =>
          let deltaTime := (timestamp - st_lastTimestamp state) / 1000 in
          if JS.le deltaTime 0 then state
          else
            let distance := calculateDistance position newPosition in
            let moved := JS.gt distance minSpeedThreshold in
            let newBearing :=
              if moved then calculateBearing position newPosition
              else st_lastValidBearing state in
            let lastValidBearing' :=
              if moved then newBearing else st_lastValidBearing state in
            let newVelocity := updateVelocity position newPosition deltaTime in
            let newAcceleration :=
              updateAcceleration (st_velocity state) newVelocity deltaTime in
            let velocity :=
              mkVec2 (smooth (vx (st_velocity state)) (vx newVelocity) speedSmoothing)
                     (smooth (vy (st_velocity state)) (vy newVelocity) speedSmoothing) in
            let acceleration := clampAcceleration newAcceleration in
            let bearing' := smoothBearing (st_bearing state) newBearing bearingSmoothing in
            let speed := distance / deltaTime in
            let speed' := if JS.gt speed maxSpeed then maxSpeed else speed in
            let rawPosition := newPosition in
            let position' :=
              lngLat (smooth (lng position) (lng rawPosition) positionSmoothing)
                     (smooth (lat position) (lat rawPosition) positionSmoothing) in
            mkState (Some position') velocity acceleration bearing' speed'
                    timestamp lastValidBearing'
      end
  end.

(** ** self.onmessage

    [e.data] is [{position, timestamp}]; the reply is what the worker
    posts back. *)

Definition onmessage (state : State) (e : MessageData) : State * Reply :=
  match md_position e with
  | None => (state, ErrorReply "Invalid position data")
  | Some position =>
      let updatedState := processPosition state position (md_timestamp e) in
      (updatedState,
       PoseReply (st_position updatedState) (st_bearing updatedState)
                 (st_speed updatedState) (st_velocity updatedState)
                 (st_lastTimestamp updatedState))
  end.

Definition onmessage_debug (state : State) (e : MessageData) : State * Reply :=
  match md_position e with
  | None => (state, ErrorReply "Invalid position data")
  | Some position =>
      let updatedState := processPosition_debug state position (md_timestamp e) in
      (updatedState,
       PoseReply (st_position updatedState) (st_bearing updatedState)
                 (st_speed updatedState) (st_velocity updatedState)
                 (st_lastTimestamp updatedState))
  end.

End Worker.

(** ** unified-animation.js: UnifiedAnimationController *)

(** A GeoJSON feature of the track: [geometry.coordinates] is
    [[lng, lat]], [properties] holds [timestamp] and [bearing]. *)
Record Feature : Type := mkFeature {
  coordinates : Q * Q;
  timestamp : Q;
  f_bearing : option Q
}.

Record TimeRange : Type := mkTimeRange { tr_start : Q; tr_end : Q }.

Record TrackData : Type := mkTrackData {
  features : list Feature;
  currentIndex : Z;
  timeRange : TimeRange
}.

(** [this.state]; [setTrackData] also stores a [currentIndex] on it. *)
Record AnimState : Type := mkAnimState {
  isPlaying : bool;
  currentTime : Q;
  duration : Q;
  speed : Q;
  lastFrameTime : Q;
  state_currentIndex : option Z
}.

Record Offset : Type := mkOffset { off_x : Q; off_y : Q; off_zoom : Q }.

Record Camera : Type := mkCamera {
  isLocked : bool;
  offset : Offset;
  dampingRatio : Q
}.

Record Controller : Type := mkController {
  state : AnimState;
  trackData : TrackData;
  camera : Camera
}.

(** What the controller reads from its collaborators: the map's center
    and zoom, and the position of the vehicle layer ([null] before the
    first update). *)
Record MapView : Type := mkMapView {
  getCenter : Q * Q;
  getZoom : Q;
  getCurrentPosition : option (Q * Q)
}.

(** What the controller asks of its collaborators. *)
Inductive Effect : Type :=
| PostMessage (data : MessageData)
| LayerUpdatePosition (lngLat : Q * Q) (bearing speed : Q)
| EaseTo (center : Q * Q) (bearing pitch duration : Q).

Definition newController : Controller :=
  mkController
    (mkAnimState false 0 0 1 0 None)
    (mkTrackData [] 0 (mkTimeRange 0 0))
    (mkCamera false (mkOffset 0 0 0) (6 # 10)).

(** [Array.prototype.findIndex]: the first index whose element
    satisfies [p], or [-1]. *)
Fixpoint findIndex_from {A : Type} (p : A -> bool) (l : list A) (i : Z) : Z :=
  match l with
  | [] => (-1)%Z
  | x :: l' => if p x then i else findIndex_from p l' (i + 1)%Z
  end.

Definition findIndex {A : Type} (p : A -> bool) (l : list A) : Z :=
  findIndex_from p l 0%Z.

(** [l[i]]: [undefined] outside the array. *)
Definition index {A : Type} (l : list A) (i : Z) : option A :=
  if (i <? 0)%Z then None else nth_error l (Z.to_nat i).

(** [Math.min(x, ...l)] and [Math.max(x, ...l)]. *)
Definition Math_min (x : Q) (l : list Q) : Q := fold_left Qmin l x.
Definition Math_max (x : Q) (l : list Q) : Q := fold_left Qmax l x.

Definition setSpeed (c : Controller) (speed : Q) : Controller :=
  let s := state c in
  mkController
    (mkAnimState (isPlaying s) (currentTime s) (duration s) speed
                 (lastFrameTime s) (state_currentIndex s))
    (trackData c) (camera c).

(** The bracket of [updatePosition]: [prev], [next] and the
    interpolation factor [t] for a target time in milliseconds; [None]
    where the function returns early. *)
Definition locateBracket (features : list Feature) (targetTime : Q)
  : option (Feature * Feature * Q) :=
  let nextIndex := findIndex (fun f => JS.gt (timestamp f) targetTime) features in
  let nextIndex :=
    if (nextIndex =? -1)%Z then Z.of_nat (List.length features) else nextIndex in
  let prevIndex := Z.max 0 (nextIndex - 1) in
  match index features prevIndex with
  | None => None
  | Some prev =>
      let next :=
        match index features nextIndex with
        | Some f => f
        | None => prev
        end in
      let prevTime := timestamp prev in
      let nextTime := timestamp next in
      let t := if JS.eqb prevTime nextTime then 0
               else (targetTime - prevTime) / (nextTime - prevTime) in
      Some (prev, next, t)
  end.

(** [updatePosition(time)]; [now] is what [performance.now()] returns
    when the message is posted.  The debug overlay it fills is left
    out. *)
Definition updatePosition (c : Controller) (time now : Q) : list Effect :=
  match features (trackData c) with
  | [] => []
  | _ :: _ =>
      let targetTime := tr_start (timeRange (trackData c)) + time * 1000 in
      match locateBracket (features (trackData c)) targetTime with
      | None => []
      | Some (prev, next, t) =>
          [PostMessage
             (mkMessageData
                (Some (mkPosition (fst (coordinates prev)) (snd (coordinates prev))
                                  (f_bearing prev) (Some t)
                                  (Some (fst (coordinates next)))
                                  (Some (snd (coordinates next)))
                                  (f_bearing next)))
                now)]
      end
  end.

(** [setTrackData(data)]: the result is the returned boolean, the
    controller afterwards and what was sent. *)
Definition setTrackData (c : Controller) (data : option (list Feature)) (now : Q)
  : bool * Controller * list Effect :=
  match data with
  | None | Some [] => (false, c, [])
  | Some ((f :: fs) as features) =>
      let timestamps := map timestamp fs in
      let range := mkTimeRange (Math_min (timestamp f) timestamps)
                               (Math_max (timestamp f) timestamps) in
      let s := state c in
      let c' :=
        mkController
          (mkAnimState (isPlaying s) 0 ((tr_end range - tr_start range) / 1000)
                       (speed s) (lastFrameTime s) (Some 0%Z))
          (mkTrackData features (currentIndex (trackData c)) range)
          (camera c) in
      (true, c', updatePosition c' 0 now)
  end.

Section Camera.

Context `{M : MathLib}.

Definition calculateCameraOffset (c : Controller) (map : MapView) (bearing : Q) : Q * Q :=
  let rad := (bearing - 90) * Math_PI / 180 in
  let distance := Math_pow 2 (20 - getZoom map) * off_zoom (offset (camera c)) in
  (Math_cos rad * distance, Math_sin rad * distance).

Definition updateCamera (c : Controller) (map : MapView) (position : Position) (bearing : Q)
  : list Effect :=
  let offset := calculateCameraOffset c map bearing in
  let targetPosition := (lng position + fst offset, lat position + snd offset) in
  [EaseTo targetPosition bearing 60 0].

(** [handleWorkerMessage(e)] on the reply of the worker.  A reply
    without a position makes [position.lng] throw before anything is
    sent. *)
Definition handleWorkerMessage (c : Controller) (map : MapView) (data : Reply) : list Effect :=
  match data with
  | ErrorReply _ => []
  | PoseReply None _ _ _ _ => []
  | PoseReply (Some position) bearing speed _ _ =>
      LayerUpdatePosition (lng position, lat position) bearing speed
      :: (if isLocked (camera c) then updateCamera c map position bearing else [])
  end.

End Camera.

(** [updateCameraOffset()]: the offset and zoom captured while the
    camera is locked and the vehicle has a position. *)
Definition updateCameraOffset (c : Controller) (map : MapView) : Controller :=
  if negb (isLocked (camera c)) then c
  else
    match getCurrentPosition map with
    | None => c
    | Some vehiclePosition =>
        mkController (state c) (trackData c)
          (mkCamera (isLocked (camera c))
                    (mkOffset (fst (getCenter map) - fst vehiclePosition)
                              (snd (getCenter map) - snd vehiclePosition)
                              (getZoom map))
                    (dampingRatio (camera c)))
    end.

(** [toggleCameraLock()]: the controller afterwards and the returned
    lock flag. *)
Definition toggleCameraLock (c : Controller) (map : MapView) : Controller * bool :=
  let cam := camera c in
  let c1 := mkController (state c) (trackData c)
              (mkCamera (negb (isLocked cam)) (offset cam) (dampingRatio cam)) in
  let c2 := if isLocked (camera c1) then updateCameraOffset c1 map else c1 in
  (c2, isLocked (camera c2)).

(** A message is a bracket interpolation request when it carries [t],
    [targetLng] and [targetLat]. *)
Definition isInterpolationRequest (p : Position) : bool :=
  match t p, targetLng p, targetLat p with
  | Some _, Some _, Some _ => true
  | _, _, _ => false
  end.

(** ** The bearing code on doubles

    [normalizeBearing], and the calls of it in [smoothBearing] and in
    the interpolation branch of the worker with [DEBUG], on binary64
    floats with round to nearest even, the arithmetic of JavaScript
    numbers.  The loops run on fuel as above. *)

Module Double.

Definition gt (a b : float) : bool := PrimFloat.ltb b a.
Definition lt (a b : float) : bool := PrimFloat.ltb a b.

(** [x || d]: [undefined], [0], [-0] and [NaN] are falsy. *)
Definition or_num (x : option float) (d : float) : float :=
  match x with
  | Some v => if PrimFloat.eqb v 0 || negb (PrimFloat.eqb v v) then d else v
  | None => d
  end.

Fixpoint normalizeBearing_down (fuel : nat) (b : float) : option float :=
  if gt b 360 then
    match fuel with
    | O => None
    | S fuel' => normalizeBearing_down fuel' (b - 360)%float
    end
  else Some b.

Fixpoint normalizeBearing_up (fuel : nat) (b : float) : option float :=
  if lt b 0 then
    match fuel with
    | O => None
    | S fuel' => normalizeBearing_up fuel' (b + 360)%float
    end
  else Some b.

Definition normalizeBearing_fuel (fuel : nat) (b : float) : option float :=
  match normalizeBearing_down fuel b with
  | Some b' => normalizeBearing_up fuel b'
  | None => None
  end.

Definition smoothBearing_fuel (fuel : nat) (current target factor : float)
  : option float :=
  let diff := (target - current)%float in
  let diff :=
    if gt (PrimFloat.abs diff) 180 then
      (if gt diff 0 then (diff - 360)%float else (diff + 360)%float)
    else diff in
  normalizeBearing_fuel fuel (current + diff * factor)%float.

(** The bearing of the interpolation branch, from the [bearing] and
    [targetBearing] fields of the request and its [t]. *)
Definition interpolatedBearing_fuel (fuel : nat)
    (bearing targetBearing : option float) (t : float) : option float :=
  let sourceBearing := or_num bearing 0 in
  let targetBearing := or_num targetBearing sourceBearing in
  let interpolatedBearing :=
    if gt (PrimFloat.abs (targetBearing - sourceBearing)%float) 180 then
      let adjustedTarget :=
        if gt targetBearing sourceBearing then (targetBearing - 360)%float
        else (targetBearing + 360)%float in
      (sourceBearing + (adjustedTarget - sourceBearing) * t)%float
    else (sourceBearing + (targetBearing - sourceBearing) * t)%float in
  normalizeBearing_fuel fuel interpolatedBearing.

End Double.

(** ** A rational stand-in for [Math]

    Truncated series, good to a few digits near the origin; it only
    serves to run the definitions on concrete inputs. *)

Module RationalMath.

Definition PI : Q := 3141592653589793 # 1000000000000000.

(** [sum_{k < n} c_k] where [c_0 = term] and [c_(k+1) = step k c_k]. *)
Fixpoint series (n : nat) (k : Z) (term : Q) (step : Z -> Q -> Q) : Q :=
  match n with
  | O => 0
  | S n' => Qred (term + series n' (k + 1)%Z (Qred (step k term)) step)
  end.

Definition sin (x : Q) : Q :=
  series 8 0%Z x
    (fun k c => - (c * x * x) / inject_Z ((2 * k + 2) * (2 * k + 3))).

Definition cos (x : Q) : Q :=
  series 8 0%Z 1
    (fun k c => - (c * x * x) / inject_Z ((2 * k + 1) * (2 * k + 2))).

Definition exp (x : Q) : Q :=
  series 12 0%Z 1 (fun k c => c * x / inject_Z (k + 1)).

Definition atan (x : Q) : Q :=
  series 8 0%Z x
    (fun k c => - (c * x * x) * inject_Z (2 * k + 1) / inject_Z (2 * k + 3)).

Definition log (x : Q) : Q :=
  let y := (x - 1) / (x + 1) in
  2 * series 8 0%Z y
        (fun k c => c * y * y * inject_Z (2 * k + 1) / inject_Z (2 * k + 3)).

Definition sqrt (x : Q) : Q :=
  let step r := Qred ((r + x / r) / 2) in
  if JS.eqb x 0 then 0 else step (step (step (step (step ((x + 1) / 2))))).

Definition atan2 (y x : Q) : Q :=
  if JS.gt x 0 then atan (y / x)
  else if JS.lt x 0 then
         (if JS.lt y 0 then atan (y / x) - PI else atan (y / x) + PI)
       else if JS.gt y 0 then PI / 2
            else if JS.lt y 0 then - (PI / 2) else 0.

Definition acos (x : Q) : Q := PI / 2 - atan2 x (sqrt (1 - x * x)).

Definition pow (b e : Q) : Q := Qpower b (Qfloor e).

#[export] Instance mathLib : MathLib := {
  Math_PI := PI;
  Math_sin := sin;
  Math_cos := cos;
  Math_tan := fun x => sin x / cos x;
  Math_log := log;
  Math_exp := exp;
  Math_atan := atan;
  Math_atan2 := atan2;
  Math_acos := acos;
  Math_sqrt := sqrt;
  Math_pow := pow
}.

End RationalMath.

(** ** Inputs for concrete runs *)

Module Examples.

Definition fix90 : Position := mkPosition (-79) 43 (Some 90) None None None None.


Definition lockedController : Controller :=
  mkController (state newController) (trackData newController)
               (mkCamera true (mkOffset 0 0 14) (6 # 10)).

Definition map15 : MapView := mkMapView (-79, 43) 15 (Some (-79, 43)).

End Examples.

(** ** Runs of the worker

    The worker handles its messages one after the other; [runWorker]
    threads the state through a list of them. *)

Definition runWorker (step : State -> MessageData -> State * Reply)
    (state : State) (messages : list MessageData) : State :=
  fold_left (fun st e => fst (step st e)) messages state.

(** ** webgl-vehicle-layer.js: the position of the vehicle layer

    [currentState] of the layer, [isInitialized], and whether the map
    has the source ['vehicle-webgl'].  The debug trail and the console
    output are left out. *)

Record LayerState : Type := mkLayerState {
  ls_position : option (Q * Q);
  ls_bearing : Q;
  ls_speed : Q;
  ls_timestamp : Q
}.

Record Layer : Type := mkLayer {
  isInitialized : bool;
  hasSource : bool;
  currentState : LayerState
}.

(** What [source.setData] receives: the point and its properties. *)
Record PointFeature : Type := mkPointFeature {
  pf_coordinates : Q * Q;
  pf_bearing : Q;
  pf_speed : Q
}.

Definition newLayer (initialized source : bool) : Layer :=
  mkLayer initialized source (mkLayerState None 0 0 0).

(** [updatePosition(coordinates, bearing, speed)] of the layer; [now] is
    [performance.now()].  The result is the layer afterwards and what
    was given to [source.setData], if anything. *)
Definition layer_updatePosition (l : Layer) (coordinates : Q * Q)
    (bearing speed now : Q) : Layer * option PointFeature :=
  if negb (isInitialized l) then (l, None)
  else if negb (hasSource l) then (l, None)
  else
    (mkLayer (isInitialized l) (hasSource l)
       (mkLayerState (Some coordinates)
                     (JS.or_num (Some bearing) (ls_bearing (currentState l)))
                     (JS.or_num (Some speed) 0)
                     now),
     Some (mkPointFeature coordinates bearing speed)).

Definition layer_getCurrentPosition (l : Layer) : option (Q * Q) :=
  ls_position (currentState l).

(** The layer takes the [LayerUpdatePosition] requests of the
    controller and ignores the rest. *)
Definition layer_apply (l : Layer) (now : Q) (e : Effect) : Layer :=
  match e with
  | LayerUpdatePosition coordinates bearing speed =>
      fst (layer_updatePosition l coordinates bearing speed now)
  | _ => l
  end.

(** ** unified-animation.js: playback

    [frameId] and [performance] are fields of the controller next to
    [state], [trackData] and [camera]. *)

Record Performance : Type := mkPerformance {
  frameCount : Z;
  lastFpsUpdate : Q;
  fps : Q;
  frameTimes : list Q
}.

Record Player : Type := mkPlayer {
  controller : Controller;
  frameId : option positive;
  performance : Performance
}.

(** What the playback functions ask of the browser and of the rest of
    the application; [NotifyStateChange] carries the copy of the state
    that [notifyStateChange] stores in [AppState.animation]. *)
Inductive Action : Type :=
| Do (e : Effect)
| RequestAnimationFrame (handle : positive)
| CancelAnimationFrame (handle : positive)
| NotifyStateChange (isPlaying : bool) (currentTime duration speed : Q).

Definition newPlayer : Player :=
  mkPlayer newController None (mkPerformance 0 0 0 []).

Definition notifyStateChange (c : Controller) : Action :=
  NotifyStateChange (isPlaying (state c)) (currentTime (state c))
                    (duration (state c)) (speed (state c)).

(** [play()]; [now] is [performance.now()] and [handle] is what
    [requestAnimationFrame] returns when it is called. *)
Definition play (p : Player) (now : Q) (handle : positive) : Player * list Action :=
  let c := controller p in
  match features (trackData c) with
  | [] => (p, [])
  | _ :: _ =>
      let s := state c in
      let c' := mkController
                  (mkAnimState true (currentTime s) (duration s) (speed s) now
                               (state_currentIndex s))
                  (trackData c) (camera c) in
      match frameId p with
      | None =>
          (mkPlayer c' (Some handle) (performance p),
           [RequestAnimationFrame handle; notifyStateChange c'])
      | Some _ =>
          (mkPlayer c' (frameId p) (performance p), [notifyStateChange c'])
      end
  end.

Definition pause (p : Player) : Player * list Action :=
  let c := controller p in
  let s := state c in
  let c' := mkController
              (mkAnimState false (currentTime s) (duration s) (speed s)
                           (lastFrameTime s) (state_currentIndex s))
              (trackData c) (camera c) in
  match frameId p with
  | Some handle =>
      (mkPlayer c' None (performance p),
       [CancelAnimationFrame handle; notifyStateChange c'])
  | None => (mkPlayer c' None (performance p), [notifyStateChange c'])
  end.

Definition seekTo (p : Player) (time now : Q) : Player * list Action :=
  let c := controller p in
  let s := state c in
  let c' := mkController
              (mkAnimState (isPlaying s) (Qmax 0 (Qmin time (duration s)))
                           (duration s) (speed s) (lastFrameTime s)
                           (state_currentIndex s))
              (trackData c) (camera c) in
  (mkPlayer c' (frameId p) (performance p),
   map Do (updatePosition c' (currentTime (state c')) now)
   ++ [notifyStateChange c']).

(** [Math.round]: the nearest integer, halves upwards. *)
Definition Math_round (x : Q) : Q := inject_Z (Qfloor (x + (1 # 2))).

Definition updatePerformance (perf : Performance) (timestamp : Q) : Performance :=
  let count := (frameCount perf + 1)%Z in
  if JS.gt (timestamp - lastFpsUpdate perf) 1000 then
    let secondsPassed := (timestamp - lastFpsUpdate perf) / 1000 in
    let framesSinceLastUpdate := count in
    mkPerformance 0 timestamp
                  (Math_round (inject_Z framesSinceLastUpdate / secondsPassed))
                  (frameTimes perf)
  else mkPerformance count (lastFpsUpdate perf) (fps perf) (frameTimes perf).

(** [animate(timestamp)], the frame callback; [now] and [handle] as in
    [play].  The debug overlay is left out. *)
Definition animate (p : Player) (timestamp now : Q) (handle : positive)
  : Player * list Action :=
  let c := controller p in
  let s := state c in
  if negb (isPlaying s) then (p, [])
  else
    let deltaTime := (timestamp - lastFrameTime s) / 1000 in
    let s1 := mkAnimState (isPlaying s) (currentTime s + deltaTime * speed s)
                          (duration s) (speed s) timestamp (state_currentIndex s) in
    let '(p2, stopped) :=
      if JS.ge (currentTime s1) (duration s1) then
        pause (mkPlayer
                 (mkController
                    (mkAnimState (isPlaying s1) (duration s1) (duration s1)
                                 (speed s1) (lastFrameTime s1) (state_currentIndex s1))
                    (trackData c) (camera c))
                 (frameId p) (performance p))
      else (mkPlayer (mkController s1 (trackData c) (camera c))
                     (frameId p) (performance p), []) in
    let c2 := controller p2 in
    (mkPlayer c2 (Some handle) (updatePerformance (performance p2) timestamp),
     stopped
     ++ map Do (updatePosition c2 (currentTime (state c2)) now)
     ++ [RequestAnimationFrame handle]).

(** The handlers of the rewind and forward buttons, on the copy of the
    state that the last [NotifyStateChange] left in [AppState.animation]. *)
Definition rewindButton (p : Player) (appCurrentTime now : Q) : Player * list Action :=
  seekTo p (Qmax 0 (appCurrentTime - 10)) now.

Definition forwardButton (p : Player) (appCurrentTime appDuration now : Q)
  : Player * list Action :=
  seekTo p (Qmin appDuration (appCurrentTime + 10)) now.

(** ** Predicates and inputs for the further properties *)


Module PlaybackExamples.

Definition track : list Feature :=
  [mkFeature (-79, 43) 0 (Some 90);
   mkFeature (-78, 43) 1000 (Some 90);
   mkFeature (-78, 44) 3000 None].

(** A controller with the track loaded, then started at time 100. *)
Definition loaded : Player :=
  mkPlayer (snd (fst (setTrackData newController (Some track) 0)))
           None (mkPerformance 0 0 0 []).

Definition playing : Player := fst (play loaded 100 1%positive).

Definition readyLayer : Layer := newLayer true true.

End PlaybackExamples.

(** * Properties *)

(** ** Comparisons *)

Module JSFacts.

Lemma lt_spec a b : JS.lt a b = true <-> a < b.
Proof.
  unfold JS.lt. rewrite negb_true_iff.
  split; intro H.
  - apply Qnot_le_lt. intro Hle. apply Qle_bool_iff in Hle. congruence.
  - apply not_true_is_false. intro Hle. apply Qle_bool_iff in Hle.
    apply (Qlt_not_le _ _ H Hle).
Qed.

Lemma lt_false a b : JS.lt a b = false <-> b <= a.
Proof.
  unfold JS.lt. rewrite negb_false_iff. apply Qle_bool_iff.
Qed.

Lemma gt_spec a b : JS.gt a b = true <-> b < a.
Proof. apply lt_spec. Qed.

Lemma gt_false a b : JS.gt a b = false <-> a <= b.
Proof. apply lt_false. Qed.

Lemma le_spec a b : JS.le a b = true <-> a <= b.
Proof. apply Qle_bool_iff. Qed.

Lemma le_false a b : JS.le a b = false <-> b < a.
Proof.
  unfold JS.le. split; intro H.
  - apply Qnot_le_lt. intro Hle. apply Qle_bool_iff in Hle. congruence.
  - apply not_true_is_false. intro Hle. apply Qle_bool_iff in Hle.
    apply (Qlt_not_le _ _ H Hle).
Qed.

End JSFacts.

(** ** The loops of normalizeBearing *)

Ltac js_case c :=
  let E := fresh "E" in
  destruct c eqn:E;
  [ first [ apply JSFacts.gt_spec in E | apply JSFacts.lt_spec in E | apply JSFacts.le_spec in E ]
  | first [ apply JSFacts.gt_false in E | apply JSFacts.lt_false in E | apply JSFacts.le_false in E ] ].

Lemma normalizeBearing_down_enough (n : nat) :
  forall b, b <= 360 * (inject_Z (Z.of_nat n) + 1) ->
  exists r, normalizeBearing_down n b = Some r /\ r <= 360 /\
            (b <= 360 -> r = b) /\ (360 < b -> 0 < r).
Proof.
  induction n as [|n IH]; intros b Hb.
  - cbn [normalizeBearing_down]. js_case (JS.gt b 360).
    + exfalso. change (inject_Z (Z.of_nat 0)) with 0 in Hb. lra.
    + exists b. repeat split; auto. intro. lra.
  - cbn [normalizeBearing_down]. js_case (JS.gt b 360).
    + destruct (IH (b - 360)) as (r & Hr & Hle & Hsame & Hpos).
      { rewrite Nat2Z.inj_succ, <- Z.add_1_r, inject_Z_plus in Hb.
        change (inject_Z 1) with 1 in Hb. lra. }
      exists r. repeat split; auto.
      * intro. lra.
      * intros _. destruct (Qlt_le_dec 360 (b - 360)) as [Hgt|Hle'].
        -- auto.
        -- rewrite (Hsame Hle'). lra.
    + exists b. repeat split; auto. intro. lra.
Qed.

Lemma normalizeBearing_up_enough (n : nat) :
  forall b, - (360 * inject_Z (Z.of_nat n)) <= b ->
  exists r, normalizeBearing_up n b = Some r /\ 0 <= r /\
            (0 <= b -> r = b) /\ (b < 0 -> r < 360).
Proof.
  induction n as [|n IH]; intros b Hb.
  - cbn [normalizeBearing_up]. js_case (JS.lt b 0).
    + exfalso. change (inject_Z (Z.of_nat 0)) with 0 in Hb. lra.
    + exists b. repeat split; auto. intro. lra.
  - cbn [normalizeBearing_up]. js_case (JS.lt b 0).
    + destruct (IH (b + 360)) as (r & Hr & Hle & Hsame & Hneg).
      { rewrite Nat2Z.inj_succ, <- Z.add_1_r, inject_Z_plus in Hb.
        change (inject_Z 1) with 1 in Hb. lra. }
      exists r. repeat split; auto.
      * intro. lra.
      * intros _. destruct (Qlt_le_dec (b + 360) 0) as [Hlt|Hge].
        -- auto.
        -- rewrite (Hsame Hge). lra.
    + exists b. repeat split; auto. intro. lra.
Qed.

Lemma normalizeBearing_bound_spec (b : Q) :
  Qabs b < 360 * inject_Z (Z.of_nat (normalizeBearing_bound b)).
Proof.
  unfold normalizeBearing_bound.
  destruct b as [num den]. cbn [Qnum Qden Qabs].
  set (q := (Z.abs num / (360 * Z.pos den))%Z).
  assert (Hq : (0 <= q)%Z).
  { apply Z.div_pos; lia. }
  assert (Hlt : (Z.abs num < (q + 1) * (360 * Z.pos den))%Z).
  { pose proof (Z.mul_succ_div_gt (Z.abs num) (360 * Z.pos den)) as H.
    fold q in H. lia. }
  rewrite Nat2Z.inj_succ, Z2Nat.id by exact Hq.
  unfold Qlt, Qmult, inject_Z. cbn [Qnum Qden]. lia.
Qed.

Lemma normalizeBearing_down_steps (n : nat) :
  forall b r, normalizeBearing_down n b = Some r ->
  exists k : Z, r == b - 360 * inject_Z k.
Proof.
  induction n as [|n IH]; intros b r H; cbn [normalizeBearing_down] in H;
    destruct (JS.gt b 360); try discriminate.
  - injection H as <-. exists 0%Z. change (inject_Z 0) with 0. lra.
  - destruct (IH _ _ H) as (k & Hk). exists (k + 1)%Z.
    rewrite inject_Z_plus. change (inject_Z 1) with 1. lra.
  - injection H as <-. exists 0%Z. change (inject_Z 0) with 0. lra.
Qed.

Lemma normalizeBearing_up_steps (n : nat) :
  forall b r, normalizeBearing_up n b = Some r ->
  exists k : Z, r == b + 360 * inject_Z k.
Proof.
  induction n as [|n IH]; intros b r H; cbn [normalizeBearing_up] in H;
    destruct (JS.lt b 0); try discriminate.
  - injection H as <-. exists 0%Z. change (inject_Z 0) with 0. lra.
  - destruct (IH _ _ H) as (k & Hk). exists (k + 1)%Z.
    rewrite inject_Z_plus. change (inject_Z 1) with 1. lra.
  - injection H as <-. exists 0%Z. change (inject_Z 0) with 0. lra.
Qed.

(** The run of both loops with the fuel of [normalizeBearing]: it
    returns, the result differs from the argument by a multiple of 360,
    and it lies in (0,360] for a positive argument and in [0,360)
    otherwise. *)
Lemma normalizeBearing_run (b : Q) :
  exists r, normalizeBearing_fuel (normalizeBearing_bound b) b = Some r /\
            normalizeBearing b = r /\
            (exists k : Z, r == b + 360 * inject_Z k) /\
            (0 < b -> 0 < r /\ r <= 360) /\
            (b <= 0 -> 0 <= r /\ r < 360).
Proof.
  pose proof (normalizeBearing_bound_spec b) as Hb.
  set (n := normalizeBearing_bound b) in *.
  assert (Habs : - Qabs b <= b /\ b <= Qabs b).
  { split; [apply Qle_minus_iff; pose proof (Qle_Qabs (- b)) as H;
            rewrite Qabs_opp in H; lra | apply Qle_Qabs]. }
  assert (Hn : 0 <= inject_Z (Z.of_nat n)).
  { change 0 with (inject_Z 0). rewrite <- Zle_Qle. lia. }
  destruct (normalizeBearing_down_enough n b) as (b' & Hd & Hle & Hsame & Hpos);
    [lra|].
  destruct (normalizeBearing_up_enough n b') as (r & Hu & Hge & Hsame' & Hlt).
  { destruct (Qlt_le_dec 360 b) as [Hgt|Hle'].
    - specialize (Hpos Hgt). lra.
    - rewrite (Hsame Hle'). lra. }
  exists r.
  assert (Hf : normalizeBearing_fuel n b = Some r).
  { unfold normalizeBearing_fuel. rewrite Hd. exact Hu. }
  split; [exact Hf|].
  split; [unfold normalizeBearing; fold n; rewrite Hf; reflexivity|].
  split; [|split].
  - destruct (normalizeBearing_down_steps _ _ _ Hd) as (k1 & Hk1).
    destruct (normalizeBearing_up_steps _ _ _ Hu) as (k2 & Hk2).
    exists (k2 - k1)%Z. unfold Zminus. rewrite inject_Z_plus, inject_Z_opp. lra.
  - intro Hb0.
    assert (Hb' : 0 < b').
    { destruct (Qlt_le_dec 360 b) as [Hgt|Hle'];
        [apply Hpos, Hgt | rewrite (Hsame Hle'); exact Hb0]. }
    rewrite (Hsame' (Qlt_le_weak _ _ Hb')). split; assumption.
  - intro Hb0.
    assert (Hb' : b' = b) by (apply Hsame; lra).
    subst b'. split; [exact Hge|].
    destruct (Qlt_le_dec b 0) as [Hneg|Hnn].
    + apply Hlt, Hneg.
    + rewrite (Hsame' Hnn). lra.
Qed.

Lemma normalizeBearing_fuel_bound (b : Q) :
  exists r, normalizeBearing_fuel (normalizeBearing_bound b) b = Some r /\
            normalizeBearing b = r.
Proof.
  destruct (normalizeBearing_run b) as (r & Hf & Hr & _). eauto.
Qed.

Lemma normalizeBearing_range (b : Q) :
  0 <= normalizeBearing b /\ normalizeBearing b <= 360.
Proof.
  destruct (normalizeBearing_run b) as (r & _ & -> & _ & Hpos & Hneg).
  destruct (Qlt_le_dec 0 b) as [H|H].
  - destruct (Hpos H). split; lra.
  - destruct (Hneg H). split; lra.
Qed.


(** ** normalizeBearing *)

Lemma double_down_stuck (x : float) :
  (x - 360)%float = x -> Double.gt x 360 = true ->
  forall fuel, Double.normalizeBearing_fuel fuel x = None.
Proof.
  intros Hsub Hgt fuel.
  assert (H : Double.normalizeBearing_down fuel x = None).
  { induction fuel as [|fuel IH]; cbn [Double.normalizeBearing_down]; rewrite Hgt.
    - reflexivity.
    - rewrite Hsub. exact IH. }
  unfold Double.normalizeBearing_fuel. rewrite H. reflexivity.
Qed.

(** C10: on doubles normalizeBearing(1e19) does not return.  1e19 is
    greater than 360 and 1e19 - 360 rounds back to 1e19, so the first
    loop runs out of any amount of fuel.  The worker reaches such an
    argument from its messages: the interpolation branch normalizes
    the bearing 1e19 of a request as it is, and smoothBearing from 0
    towards a stored bearing of 1e19 normalizes 7.5e18. *)
Theorem normalizeBearing_double_stuck :
  let big := 1e19%float in
  (big - 360)%float = big /\
  Double.gt big 360 = true /\
  (forall fuel, Double.normalizeBearing_down fuel big = None) /\
  (forall fuel, Double.normalizeBearing_fuel fuel big = None) /\
  (forall fuel, Double.interpolatedBearing_fuel fuel (Some big) None 0.5 = None) /\
  (forall fuel, Double.smoothBearing_fuel fuel 0 big 0.75 = None).
Proof.
  cbv zeta.
  assert (Hsub : (1e19 - 360)%float = 1e19%float) by reflexivity.
  assert (Hgt : Double.gt 1e19 360 = true) by reflexivity.
  split; [exact Hsub|]. split; [exact Hgt|].
  split.
  { intro fuel. induction fuel as [|fuel IH];
      cbn [Double.normalizeBearing_down]; rewrite Hgt; [reflexivity|].
    rewrite Hsub. exact IH. }
  split; [apply double_down_stuck; assumption|].
  split.
  - intro fuel.
    change (Double.interpolatedBearing_fuel fuel (Some 1e19%float) None 0.5)
      with (Double.normalizeBearing_fuel fuel 1e19).
    apply double_down_stuck; assumption.
  - intro fuel.
    change (Double.smoothBearing_fuel fuel 0 1e19 0.75)
      with (Double.normalizeBearing_fuel fuel 7.5e18).
    apply double_down_stuck; reflexivity.
Qed.

(** C4: normalizeBearing(360) is 360, outside [0,360), and differs from
    normalizeBearing(0) although the arguments are 360 apart: the first
    loop tests [bearing > 360], so 360 itself is never reduced. *)
Theorem normalizeBearing_360 :
  normalizeBearing 360 == 360 /\
  ~ normalizeBearing 360 < 360 /\
  normalizeBearing 0 == 0 /\
  ~ normalizeBearing 0 == normalizeBearing (0 + 360).
Proof.
  split; [vm_compute; reflexivity|].
  split; [intro H; vm_compute in H; discriminate H|].
  split; [vm_compute; reflexivity|].
  intro H. vm_compute in H. discriminate H.
Qed.

(** ** Physics.smoothBearing *)

(** C6: smoothBearing takes [diff = target - current], moves it by 360
    towards zero when [|diff| > 180], and returns
    [normalize (current + diff * factor)]; from 350 towards 10 with
    factor 0.75 the difference is 20 and the result is 5. *)
Theorem smoothBearing_shorter_path (current target factor : Q) :
  smoothBearing current target factor =
    normalizeBearing (current + smoothBearing_diff current target * factor) /\
  (Qabs (target - current) <= 180 ->
     smoothBearing_diff current target = target - current) /\
  (180 < Qabs (target - current) -> 0 < target - current ->
     smoothBearing_diff current target = target - current - 360) /\
  (180 < Qabs (target - current) -> target - current <= 0 ->
     smoothBearing_diff current target = target - current + 360) /\
  smoothBearing_diff 350 10 == 20 /\
  ~ smoothBearing_diff 350 10 == -340 /\
  smoothBearing 350 10 (75 # 100) == 5.
Proof.
  split; [reflexivity|].
  split; [|split; [|split]].
  - intro H. apply JSFacts.gt_false in H.
    unfold smoothBearing_diff. rewrite H. reflexivity.
  - intros H Hpos. apply JSFacts.gt_spec in H, Hpos.
    unfold smoothBearing_diff. rewrite H, Hpos. reflexivity.
  - intros H Hneg. apply JSFacts.gt_spec in H. apply JSFacts.gt_false in Hneg.
    unfold smoothBearing_diff. rewrite H, Hneg. reflexivity.
  - split; [vm_compute; reflexivity|].
    split; [intro H; vm_compute in H; discriminate H|].
    vm_compute. reflexivity.
Qed.

(** ** processPosition and onmessage *)

Section Estimator.

Context `{M : MathLib}.

Lemma processPosition_debug_raw (state : State) (p : Position) (timestamp : Q) :
  isInterpolationRequest p = false ->
  processPosition_debug state p timestamp = processPosition state p timestamp.
Proof.
  unfold isInterpolationRequest, processPosition_debug, processPosition.
  destruct (t p); [destruct (targetLng p); [destruct (targetLat p)|]|];
    intro H; try discriminate H; reflexivity.
Qed.

Lemma onmessage_debug_raw (state : State) (p : Position) (timestamp : Q) :
  isInterpolationRequest p = false ->
  onmessage_debug state (mkMessageData (Some p) timestamp) =
  onmessage state (mkMessageData (Some p) timestamp).
Proof.
  intro H. unfold onmessage_debug, onmessage. cbn [md_position md_timestamp].
  rewrite (processPosition_debug_raw _ _ _ H). reflexivity.
Qed.

(** C1 as the code has it: the first fix [p] with bearing 90 at time
    1000 on a fresh estimator is stored unsmoothed, with zero speed,
    velocity and acceleration and [lastTimestamp] 1000; the bearing 90
    goes to [lastValidBearing], and the bearing of the pose stays 0.
    The version with [DEBUG] does the same on a raw fix. *)
Theorem processPosition_seed (p : Position) :
  bearing p = Some 90 ->
  let seeded := mkState (Some p) (mkVec2 0 0) (mkVec2 0 0) 0 0 1000 90 in
  let pose := PoseReply (Some p) 0 0 (mkVec2 0 0) 1000 in
  processPosition initialState p 1000 = seeded /\
  onmessage initialState (mkMessageData (Some p) 1000) = (seeded, pose) /\
  (isInterpolationRequest p = false ->
   onmessage_debug initialState (mkMessageData (Some p) 1000) = (seeded, pose)).
Proof.
  intros Hb seeded pose.
  assert (H : processPosition initialState p 1000 = seeded).
  { unfold processPosition. cbn [st_position initialState].
    rewrite Hb. reflexivity. }
  assert (Hmsg : onmessage initialState (mkMessageData (Some p) 1000) = (seeded, pose)).
  { unfold onmessage. cbn [md_position md_timestamp]. rewrite H. reflexivity. }
  split; [exact H|]. split; [exact Hmsg|].
  intro Hraw. rewrite (onmessage_debug_raw _ _ _ Hraw). exact Hmsg.
Qed.

(** C5: once a position is stored, a fix whose timestamp is not later
    than [lastTimestamp] leaves the whole state as it is, and the reply
    is the pose of that state.  The version with [DEBUG] does the same
    on a raw fix. *)
Theorem processPosition_stale_timestamp
    (state : State) (position newPosition : Position) (timestamp : Q) :
  st_position state = Some position ->
  timestamp <= st_lastTimestamp state ->
  let pose := PoseReply (st_position state) (st_bearing state) (st_speed state)
                        (st_velocity state) (st_lastTimestamp state) in
  processPosition state newPosition timestamp = state /\
  onmessage state (mkMessageData (Some newPosition) timestamp) = (state, pose) /\
  (isInterpolationRequest newPosition = false ->
   onmessage_debug state (mkMessageData (Some newPosition) timestamp) = (state, pose)).
Proof.
  intros Hpos Hts pose.
  assert (H : processPosition state newPosition timestamp = state).
  { unfold processPosition. rewrite Hpos.
    assert (Hle : JS.le ((timestamp - st_lastTimestamp state) / 1000) 0 = true).
    { apply JSFacts.le_spec.
      setoid_replace ((timestamp - st_lastTimestamp state) / 1000)
        with ((timestamp - st_lastTimestamp state) * (1 # 1000))
        by (unfold Qdiv; reflexivity).
      lra. }
    rewrite Hle. reflexivity. }
  assert (Hmsg : onmessage state (mkMessageData (Some newPosition) timestamp) =
                 (state, pose)).
  { unfold onmessage. cbn [md_position md_timestamp]. rewrite H. reflexivity. }
  split; [exact H|]. split; [exact Hmsg|].
  intro Hraw. rewrite (onmessage_debug_raw _ _ _ Hraw). exact Hmsg.
Qed.


End Estimator.

(** ** Physics.slerpPosition *)

Section Slerp.

Context `{M : MathLib}.

(** C7: when the scalar product of the two points exceeds 0.9999,
    slerpPosition returns lerpPosition, and at [t = 0.5] that is the
    midpoint of the longitudes and of the latitudes. *)
Theorem slerpPosition_near (a b : Position) (t : Q) :
  9999 # 10000 < slerp_dot a b ->
  slerpPosition a b t = lerpPosition a b t /\
  lng (slerpPosition a b (1 # 2)) == (lng a + lng b) / 2 /\
  lat (slerpPosition a b (1 # 2)) == (lat a + lat b) / 2.
Proof.
  intro Hdot. apply JSFacts.gt_spec in Hdot.
  assert (H : forall u, slerpPosition a b u = lerpPosition a b u).
  { intro u. unfold slerpPosition. rewrite Hdot. reflexivity. }
  split; [apply H|].
  rewrite H. unfold lerpPosition, lngLat. cbn [lng lat].
  split; field.
Qed.

End Slerp.

(** ** setSpeed *)

(** C3 as the code has it: setSpeed stores whatever multiplier it is
    given, positive or not, and touches nothing else. *)
Theorem setSpeed_stores (c : Controller) (mult : Q) :
  speed (state (setSpeed c mult)) = mult /\
  isPlaying (state (setSpeed c mult)) = isPlaying (state c) /\
  currentTime (state (setSpeed c mult)) = currentTime (state c) /\
  duration (state (setSpeed c mult)) = duration (state c) /\
  lastFrameTime (state (setSpeed c mult)) = lastFrameTime (state c) /\
  trackData (setSpeed c mult) = trackData c /\
  camera (setSpeed c mult) = camera c.
Proof.
  repeat split.
Qed.

(** ** updatePosition *)

Lemma findIndex_from_spec {A : Type} (p : A -> bool) (l : list A) :
  forall i,
    (findIndex_from p l i = (-1)%Z /\ (0 <= i)%Z /\
       forall j y, nth_error l j = Some y -> p y = false) \/
    (exists k x, findIndex_from p l i = (i + Z.of_nat k)%Z /\
                 nth_error l k = Some x /\ p x = true /\
                 forall j y, (j < k)%nat -> nth_error l j = Some y -> p y = false) \/
    (i < 0)%Z.
Proof.
  induction l as [|x l IH]; intro i; cbn [findIndex_from].
  - destruct (Z.ltb_spec i 0); [right; right; assumption|].
    left. repeat split; auto. intros [|j] y; discriminate.
  - destruct (p x) eqn:Ex.
    + right; left. exists 0%nat, x. repeat split; auto.
      * cbn. lia.
      * intros j y Hj. lia.
    + destruct (Z.ltb_spec i 0); [right; right; assumption|].
      destruct (IH (i + 1)%Z) as [(Hr & _ & Hall) | [(k & y & Hr & Hk & Hy & Hbefore) | Hneg]].
      * left. repeat split; auto.
        intros [|j] z Hz; cbn in Hz; [congruence | eauto].
      * right; left. exists (S k), y. repeat split; auto.
        -- rewrite Hr. lia.
        -- intros [|j] z Hj Hz; cbn in Hz; [congruence|].
           apply (Hbefore j); [lia | assumption].
      * lia.
Qed.

Lemma index_of_nat {A : Type} (l : list A) (n : nat) :
  index l (Z.of_nat n) = nth_error l n.
Proof.
  unfold index. destruct (Z.ltb_spec (Z.of_nat n) 0); [lia|].
  rewrite Nat2Z.id. reflexivity.
Qed.

Lemma locateBracket_spec (f : Feature) (fs : list Feature) (targetTime : Q) :
  exists (nextIndex : nat) (prev next : Feature),
    locateBracket (f :: fs) targetTime =
      Some (prev, next,
            if JS.eqb (timestamp prev) (timestamp next) then 0
            else (targetTime - timestamp prev) / (timestamp next - timestamp prev)) /\
    (nextIndex <= List.length (f :: fs))%nat /\
    (forall j y, (j < nextIndex)%nat -> nth_error (f :: fs) j = Some y ->
                 timestamp y <= targetTime) /\
    (forall y, nth_error (f :: fs) nextIndex = Some y ->
               targetTime < timestamp y /\ next = y) /\
    (nextIndex = List.length (f :: fs) -> next = prev) /\
    nth_error (f :: fs) (Nat.pred nextIndex) = Some prev.
Proof.
  set (l := f :: fs).
  set (p := fun g : Feature => JS.gt (timestamp g) targetTime).
  assert (Hlen : (0 < List.length l)%nat) by (cbn; lia).
  unfold locateBracket. fold p. unfold findIndex. cbv zeta.
  destruct (findIndex_from_spec p l 0%Z)
    as [(Hr & _ & Hall) | [(k & x & Hr & Hk & Hx & Hbefore) | Hneg]]; [| |lia].
  - (* no later point: nextIndex is the length *)
    rewrite Hr. rewrite Z.eqb_refl.
    destruct (nth_error l (Nat.pred (List.length l))) as [prev|] eqn:Eprev.
    2:{ apply nth_error_None in Eprev. lia. }
    exists (List.length l), prev, prev.
    replace (Z.max 0 (Z.of_nat (List.length l) - 1))
      with (Z.of_nat (Nat.pred (List.length l))) by lia.
    rewrite !index_of_nat, Eprev.
    assert (Hnone : nth_error l (List.length l) = None)
      by (apply nth_error_None; lia).
    rewrite Hnone.
    repeat split; auto.
    + intros j y _ Hy. apply JSFacts.gt_false. apply (Hall j y Hy).
    + congruence.
    + congruence.
  - (* the first later point is at [k] *)
    rewrite Hr. rewrite Z.add_0_l.
    destruct (Z.eqb_spec (Z.of_nat k) (-1)); [lia|].
    assert (Hklen : (k < List.length l)%nat).
    { apply nth_error_Some. congruence. }
    destruct (nth_error l (Nat.pred k)) as [prev|] eqn:Eprev.
    2:{ apply nth_error_None in Eprev. lia. }
    exists k, prev, x.
    replace (Z.max 0 (Z.of_nat k - 1)) with (Z.of_nat (Nat.pred k)) by lia.
    rewrite !index_of_nat, Eprev, Hk.
    repeat split; auto.
    + lia.
    + intros j y Hj Hy. apply JSFacts.gt_false. apply (Hbefore j y Hj Hy).
    + apply JSFacts.gt_spec. replace y with x by congruence. exact Hx.
    + congruence.
    + intro. lia.
Qed.

(** C8: updatePosition brackets the target time by the first point
    with a later timestamp ([nextIndex], the length of the track when
    there is none) and the point before it ([prev], the first point
    when [nextIndex] is 0), takes [t = 0] when the two timestamps are
    equal and [(target - prevTime) / (nextTime - prevTime)] otherwise,
    and sends [prev], [next] and [t] to the worker.  On a track with
    timestamps 0, 1000 and 3000, at 1.5 seconds, it sends the second
    point as source, the third as target and [t = 0.25]. *)
Theorem updatePosition_bracket
    (s : AnimState) (cam : Camera) (ci : Z) (range : TimeRange)
    (f : Feature) (fs : list Feature) (time : Q)
    (c0 c1 c2 : Q * Q) (b0 b1 b2 : option Q) (now now' : Q) :
  (let targetTime := tr_start range + time * 1000 in
   exists (nextIndex : nat) (prev next : Feature),
     let t := if JS.eqb (timestamp prev) (timestamp next) then 0
              else (targetTime - timestamp prev) / (timestamp next - timestamp prev) in
     locateBracket (f :: fs) targetTime = Some (prev, next, t) /\
     updatePosition (mkController s (mkTrackData (f :: fs) ci range) cam) time now =
       [PostMessage
          (mkMessageData
             (Some (mkPosition (fst (coordinates prev)) (snd (coordinates prev))
                               (f_bearing prev) (Some t)
                               (Some (fst (coordinates next)))
                               (Some (snd (coordinates next)))
                               (f_bearing next)))
             now)] /\
     (nextIndex <= List.length (f :: fs))%nat /\
     (forall j y, (j < nextIndex)%nat -> nth_error (f :: fs) j = Some y ->
                  timestamp y <= targetTime) /\
     (forall y, nth_error (f :: fs) nextIndex = Some y ->
                targetTime < timestamp y /\ next = y) /\
     (nextIndex = List.length (f :: fs) -> next = prev) /\
     nth_error (f :: fs) (Nat.pred nextIndex) = Some prev) /\
  (let p0 := mkFeature c0 0 b0 in
   let p1 := mkFeature c1 1000 b1 in
   let p2 := mkFeature c2 3000 b2 in
   let c := snd (fst (setTrackData newController (Some [p0; p1; p2]) now)) in
   tr_start (timeRange (trackData c)) = 0 /\
   exists t, t == 1 # 4 /\
     locateBracket [p0; p1; p2] (0 + (3 # 2) * 1000) = Some (p1, p2, t) /\
     updatePosition c (3 # 2) now' =
       [PostMessage
          (mkMessageData
             (Some (mkPosition (fst c1) (snd c1) b1 (Some t)
                               (Some (fst c2)) (Some (snd c2)) b2))
             now')]).
Proof.
  split.
  - cbv zeta.
    destruct (locateBracket_spec f fs (tr_start range + time * 1000))
      as (nextIndex & prev & next & Hb & Hrest).
    exists nextIndex, prev, next.
    split; [exact Hb|].
    split; [|exact Hrest].
    unfold updatePosition. cbn [trackData features timeRange].
    rewrite Hb. reflexivity.
  - cbv zeta. split; [reflexivity|].
    eexists. split; [|split; reflexivity].
    reflexivity.
Qed.

(** ** The follow camera *)

Section FollowCamera.

Context `{M : MathLib}.

(** C9: with the camera locked, a pose from the worker moves the map to
    the vehicle position plus [(cos rad * distance, sin rad * distance)],
    where [rad = (bearing - 90) * PI / 180] and
    [distance = 2 ^ (20 - zoom) * offset.zoom], with the bearing of the
    vehicle and pitch 60; and [offset.zoom] is the zoom of the map at
    the moment the lock was engaged. *)
Theorem locked_camera_target
    (c : Controller) (map map0 : MapView) (position : Position)
    (bearing speed timestamp : Q) (velocity : Vec2) (vehicle : Q * Q) :
  let rad := (bearing - 90) * Math_PI / 180 in
  let distance zoomAtCapture := Math_pow 2 (20 - getZoom map) * zoomAtCapture in
  let reply := PoseReply (Some position) bearing speed velocity timestamp in
  (isLocked (camera c) = true ->
   calculateCameraOffset c map bearing =
     (Math_cos rad * distance (off_zoom (offset (camera c))),
      Math_sin rad * distance (off_zoom (offset (camera c)))) /\
   handleWorkerMessage c map reply =
     [LayerUpdatePosition (lng position, lat position) bearing speed;
      EaseTo (lng position + Math_cos rad * distance (off_zoom (offset (camera c))),
              lat position + Math_sin rad * distance (off_zoom (offset (camera c))))
             bearing 60 0]) /\
  (isLocked (camera c) = false ->
   getCurrentPosition map0 = Some vehicle ->
   let c' := fst (toggleCameraLock c map0) in
   isLocked (camera c') = true /\
   off_zoom (offset (camera c')) = getZoom map0 /\
   handleWorkerMessage c' map reply =
     [LayerUpdatePosition (lng position, lat position) bearing speed;
      EaseTo (lng position + Math_cos rad * distance (getZoom map0),
              lat position + Math_sin rad * distance (getZoom map0))
             bearing 60 0]).
Proof.
  cbv zeta. split.
  - intro Hlocked. split; [reflexivity|].
    unfold handleWorkerMessage. rewrite Hlocked. reflexivity.
  - intros Hfree Hvehicle.
    unfold toggleCameraLock, updateCameraOffset.
    cbn [camera isLocked]. rewrite Hfree. cbn [negb fst].
    rewrite Hvehicle.
    repeat split.
Qed.

End FollowCamera.

(** * Concrete runs *)

#[local] Existing Instance RationalMath.mathLib.

(** C1 as stated fails: the pose returned for the first fix with bearing
    90 has bearing 0. *)
Lemma seed_bearing_is_not_hint :
  snd (onmessage (M := RationalMath.mathLib) initialState
         (mkMessageData (Some Examples.fix90) 1000)) =
    PoseReply (Some Examples.fix90) 0 0 (mkVec2 0 0) 1000 /\
  ~ 0 == 90.
Proof.
  split; [reflexivity|].
  intro H. discriminate H.
Qed.

Lemma processPosition_seed_witness :
  let seeded := mkState (Some Examples.fix90) (mkVec2 0 0) (mkVec2 0 0) 0 0 1000 90 in
  let pose := PoseReply (Some Examples.fix90) 0 0 (mkVec2 0 0) 1000 in
  processPosition initialState Examples.fix90 1000 = seeded /\
  onmessage initialState (mkMessageData (Some Examples.fix90) 1000) = (seeded, pose) /\
  (isInterpolationRequest Examples.fix90 = false ->
   onmessage_debug initialState (mkMessageData (Some Examples.fix90) 1000) =
     (seeded, pose)).
Proof.
  exact (processPosition_seed (M := RationalMath.mathLib) Examples.fix90 eq_refl).
Defined.



(** C3 as stated fails: setSpeed(0) and setSpeed(-2) replace the speed
    1 of a new controller. *)
Lemma setSpeed_accepts_non_positive :
  speed (state newController) == 1 /\
  speed (state (setSpeed newController 0)) == 0 /\
  speed (state (setSpeed newController (-2))) == -2 /\
  0 <= 0 /\ -2 <= 0 /\ ~ 0 == 1 /\ ~ -2 == 1.
Proof.
  repeat split; try reflexivity; try discriminate.
Qed.

Lemma processPosition_stale_timestamp_witness :
  let seeded := processPosition initialState Examples.fix90 1000 in
  let fix' := lngLat (-78) 44 in
  let pose := PoseReply (st_position seeded) (st_bearing seeded) (st_speed seeded)
                        (st_velocity seeded) (st_lastTimestamp seeded) in
  processPosition seeded fix' 1000 = seeded /\
  onmessage seeded (mkMessageData (Some fix') 1000) = (seeded, pose) /\
  (isInterpolationRequest fix' = false ->
   onmessage_debug seeded (mkMessageData (Some fix') 1000) = (seeded, pose)).
Proof.
  apply (processPosition_stale_timestamp (M := RationalMath.mathLib)
           _ Examples.fix90 (lngLat (-78) 44) 1000).
  - reflexivity.
  - cbn. lra.
Defined.

Lemma slerpPosition_near_witness :
  let a := lngLat (-79) 43 in
  let b := lngLat (-79 - (1 # 10)) (43 + (1 # 10)) in
  slerpPosition (M := RationalMath.mathLib) a b (1 # 3) = lerpPosition a b (1 # 3) /\
  lng (slerpPosition (M := RationalMath.mathLib) a b (1 # 2)) == (lng a + lng b) / 2 /\
  lat (slerpPosition (M := RationalMath.mathLib) a b (1 # 2)) == (lat a + lat b) / 2.
Proof.
  apply (slerpPosition_near (M := RationalMath.mathLib)).
  vm_compute. reflexivity.
Defined.

Lemma locked_camera_target_witness :
  handleWorkerMessage (M := RationalMath.mathLib) Examples.lockedController Examples.map15
    (PoseReply (Some Examples.fix90) 90 0 (mkVec2 0 0) 1000) =
  [LayerUpdatePosition (-79, 43) 90 0;
   EaseTo (-79 + Math_cos ((90 - 90) * Math_PI / 180) * (Math_pow 2 (20 - 15) * 14),
           43 + Math_sin ((90 - 90) * Math_PI / 180) * (Math_pow 2 (20 - 15) * 14))
          90 60 0].
Proof.
  exact (proj2 (proj1 (locked_camera_target (M := RationalMath.mathLib)
                         Examples.lockedController Examples.map15 Examples.map15
                         Examples.fix90 90 0 1000 (mkVec2 0 0) (0, 0))
                      eq_refl)).
Defined.

(** * Further properties of the worker *)

(** ** normalizeBearing *)


Lemma normalizeBearing_fixed (b : Q) :
  0 <= b -> b <= 360 -> normalizeBearing b = b.
Proof.
  intros H0 H360.
  unfold normalizeBearing, normalizeBearing_bound, normalizeBearing_fuel.
  cbn [normalizeBearing_down].
  apply JSFacts.gt_false in H360. rewrite H360.
  cbn [normalizeBearing_up].
  apply JSFacts.lt_false in H0. rewrite H0. reflexivity.
Qed.


(** X2: normalizeBearing is idempotent, and it returns a bearing that is
    already between 0 and 360 (both included) as it is. *)
Theorem normalizeBearing_idempotent (b : Q) :
  normalizeBearing (normalizeBearing b) = normalizeBearing b /\
  (0 <= b -> b <= 360 -> normalizeBearing b = b).
Proof.
  split.
  - destruct (normalizeBearing_range b). apply normalizeBearing_fixed; assumption.
  - apply normalizeBearing_fixed.
Qed.



(** ** smoothBearing *)

(** X5: for two bearings at most 360 apart (any two in [0,360]), the
    step smoothBearing takes is the difference reduced by a whole turn
    to at most 180 in size: it never turns the long way round. *)
Theorem smoothBearing_diff_shortest (current target : Q) :
  Qabs (target - current) <= 360 ->
  Qabs (smoothBearing_diff current target) <= 180 /\
  (smoothBearing_diff current target == target - current \/
   smoothBearing_diff current target == target - current - 360 \/
   smoothBearing_diff current target == target - current + 360).
Proof.
  intro H. apply Qabs_Qle_condition in H. destruct H as [Hlo Hhi].
  unfold smoothBearing_diff.
  js_case (JS.gt (Qabs (target - current)) 180).
  - js_case (JS.gt (target - current) 0).
    + split; [|right; left; reflexivity].
      assert (Hpos : 180 < target - current).
      { rewrite Qabs_pos in E; lra. }
      apply Qabs_Qle_condition; lra.
    + split; [|right; right; reflexivity].
      assert (Hneg : target - current < -180).
      { rewrite Qabs_neg in E; lra. }
      apply Qabs_Qle_condition; lra.
  - split; [exact E | left; reflexivity].
Qed.

Lemma smoothBearing_diff_shortest_witness :
  Qabs (smoothBearing_diff 350 10) <= 180 /\
  (smoothBearing_diff 350 10 == 10 - 350 \/
   smoothBearing_diff 350 10 == 10 - 350 - 360 \/
   smoothBearing_diff 350 10 == 10 - 350 + 360).
Proof.
  apply (smoothBearing_diff_shortest 350 10). vm_compute. discriminate.
Defined.

(** ** Invariants of the worker *)

Section WorkerInvariants.

Context `{M : MathLib}.





Lemma processPosition_timestamp_mono (st : State) (p : Position) (ts : Q) :
  st_position st <> None ->
  st_position (processPosition st p ts) <> None /\
  st_lastTimestamp st <= st_lastTimestamp (processPosition st p ts).
Proof.
  intro Hpos. unfold processPosition.
  destruct (st_position st) as [pos|] eqn:Epos; [|congruence].
  js_case (JS.le ((ts - st_lastTimestamp st) / 1000) 0).
  - rewrite Epos. split; [discriminate | apply Qle_refl].
  - cbn [st_position st_lastTimestamp]. split; [discriminate|].
    setoid_replace ((ts - st_lastTimestamp st) / 1000)
      with ((ts - st_lastTimestamp st) * (1 # 1000)) in E
      by (unfold Qdiv; reflexivity).
    lra.
Qed.

(** X9: once the worker without [DEBUG] holds a position, no sequence
    of messages makes it lose the position or moves [lastTimestamp]
    backwards. *)
Theorem worker_timestamp_monotone (st : State) (msgs : list MessageData) :
  st_position st <> None ->
  st_position (runWorker onmessage st msgs) <> None /\
  st_lastTimestamp st <= st_lastTimestamp (runWorker onmessage st msgs).
Proof.
  unfold runWorker. revert st.
  induction msgs as [|e msgs IH]; intros st Hpos; cbn [fold_left].
  - split; [exact Hpos | apply Qle_refl].
  - assert (Hstep : st_position (fst (onmessage st e)) <> None /\
                    st_lastTimestamp st <= st_lastTimestamp (fst (onmessage st e))).
    { unfold onmessage. destruct (md_position e); cbn [fst].
      - apply processPosition_timestamp_mono, Hpos.
      - split; [exact Hpos | apply Qle_refl]. }
    destruct Hstep as [Hpos' Hle].
    destruct (IH _ Hpos') as [Hpos'' Hle'].
    split; [exact Hpos''|]. eapply Qle_trans; eassumption.
Qed.


End WorkerInvariants.

Lemma worker_timestamp_monotone_witness :
  let st := processPosition (M := RationalMath.mathLib) initialState Examples.fix90 1000 in
  let msgs := [mkMessageData (Some (lngLat (-79) 44)) 2000;
               mkMessageData None 2500;
               mkMessageData (Some (lngLat (-78) 44)) 1500] in
  st_position (runWorker (onmessage (M := RationalMath.mathLib)) st msgs) <> None /\
  st_lastTimestamp st <=
    st_lastTimestamp (runWorker (onmessage (M := RationalMath.mathLib)) st msgs).
Proof.
  apply (worker_timestamp_monotone (M := RationalMath.mathLib)).
  cbn. discriminate.
Defined.

(** ** Bracket interpolation in the worker with [DEBUG] *)

Section Interpolation.

Context `{M : MathLib}.


End Interpolation.


(** * Further properties of the animation controller *)

(** ** The bracket of updatePosition *)





(** ** setTrackData *)




(** ** seekTo and the rewind and forward buttons *)

(** X18: with a duration that is not negative, seekTo puts the current
    time at the time asked for when that lies between 0 and the
    duration, at 0 when it is below and at the duration when it is
    above; it leaves the playing flag, the speed, the duration, the
    track and the scheduled frame as they are, and seeking to the time
    it has reached changes nothing more. *)
Theorem seekTo_clamps (p : Player) (time now : Q) :
  0 <= duration (state (controller p)) ->
  let p' := fst (seekTo p time now) in
  let s := state (controller p) in
  let s' := state (controller p') in
  0 <= currentTime s' /\ currentTime s' <= duration s /\
  (0 <= time -> time <= duration s -> currentTime s' == time) /\
  (time <= 0 -> currentTime s' == 0) /\
  (duration s <= time -> currentTime s' == duration s) /\
  isPlaying s' = isPlaying s /\ speed s' = speed s /\ duration s' = duration s /\
  trackData (controller p') = trackData (controller p) /\
  frameId p' = frameId p /\
  currentTime (state (controller (fst (seekTo p' (currentTime s') now)))) ==
    currentTime s'.
Proof.
  intros Hd p' s s'. subst p' s s'. unfold seekTo.
  cbn [fst controller state currentTime isPlaying speed duration trackData frameId].
  set (d := duration (state (controller p))) in *.
  assert (Hmax : forall x, x <= d -> 0 <= Qmax 0 x /\ Qmax 0 x <= d /\
                           (0 <= x -> Qmax 0 x == x) /\ (x <= 0 -> Qmax 0 x == 0)).
  { intros x Hx. destruct (Q.max_spec 0 x) as [[? E]|[? E]]; rewrite E;
      repeat split; intros; lra. }
  assert (Hmin : Qmin time d <= d /\ (time <= d -> Qmin time d == time) /\
                 (d <= time -> Qmin time d == d)).
  { destruct (Q.min_spec time d) as [[? E]|[? E]]; rewrite E;
      repeat split; intros; lra. }
  destruct Hmin as (Hm1 & Hm2 & Hm3).
  destruct (Hmax _ Hm1) as (H1 & H2 & H3 & H4).
  split; [exact H1|]. split; [exact H2|].
  split; [intros Ht0 Htd; rewrite H3; [apply Hm2, Htd | rewrite Hm2; assumption]|].
  split.
  { intro Ht. apply H4. rewrite Hm2; lra. }
  split.
  { intro Ht. rewrite H3; [apply Hm3, Ht | rewrite Hm3; assumption]. }
  repeat split.
  destruct (Hmax (Qmin (Qmax 0 (Qmin time d)) d) (Q.le_min_r _ _)) as (_ & _ & H5 & _).
  assert (E : Qmin (Qmax 0 (Qmin time d)) d == Qmax 0 (Qmin time d)).
  { destruct (Q.min_spec (Qmax 0 (Qmin time d)) d) as [[? E]|[? E]]; rewrite E; lra. }
  rewrite H5; [exact E | rewrite E; exact H1].
Qed.

Lemma seekTo_clamps_witness :
  let p := PlaybackExamples.loaded in
  let p' := fst (seekTo p 5 200) in
  let s := state (controller p) in
  let s' := state (controller p') in
  0 <= currentTime s' /\ currentTime s' <= duration s /\
  (0 <= 5 -> 5 <= duration s -> currentTime s' == 5) /\
  (5 <= 0 -> currentTime s' == 0) /\
  (duration s <= 5 -> currentTime s' == duration s) /\
  isPlaying s' = isPlaying s /\ speed s' = speed s /\ duration s' = duration s /\
  trackData (controller p') = trackData (controller p) /\
  frameId p' = frameId p /\
  currentTime (state (controller (fst (seekTo p' (currentTime s') 200)))) ==
    currentTime s'.
Proof.
  apply (seekTo_clamps PlaybackExamples.loaded 5 200). vm_compute. discriminate.
Defined.

(** X19: when the copy of the state the buttons read agrees with the
    controller and the current time lies between 0 and the duration,
    the rewind button moves the current time back by 10 seconds but not
    below 0, and the forward button moves it on by 10 seconds but not
    beyond the duration. *)
Theorem rewind_forward_buttons (p : Player) (now : Q) :
  let s := state (controller p) in
  0 <= currentTime s -> currentTime s <= duration s ->
  currentTime (state (controller (fst (rewindButton p (currentTime s) now)))) ==
    Qmax 0 (currentTime s - 10) /\
  currentTime (state (controller
                 (fst (forwardButton p (currentTime s) (duration s) now)))) ==
    Qmin (duration s) (currentTime s + 10).
Proof.
  intros s H0 Hd. subst s. unfold rewindButton, forwardButton, seekTo.
  cbn [fst controller state currentTime].
  set (d := duration (state (controller p))) in *.
  set (x := currentTime (state (controller p))) in *.
  split.
  - destruct (Q.max_spec 0 (x - 10)) as [[? E]|[? E]];
    destruct (Q.min_spec (Qmax 0 (x - 10)) d) as [[? E']|[? E']];
    destruct (Q.max_spec 0 (Qmin (Qmax 0 (x - 10)) d)) as [[? E'']|[? E'']];
      rewrite E'', ?E', ?E in *; lra.
  - destruct (Q.min_spec d (x + 10)) as [[? E]|[? E]];
    destruct (Q.min_spec (Qmin d (x + 10)) d) as [[? E']|[? E']];
    destruct (Q.max_spec 0 (Qmin (Qmin d (x + 10)) d)) as [[? E'']|[? E'']];
      rewrite E'', ?E', ?E in *; lra.
Qed.

Lemma rewind_forward_buttons_witness :
  let p := fst (seekTo PlaybackExamples.loaded 2 200) in
  let s := state (controller p) in
  currentTime (state (controller (fst (rewindButton p (currentTime s) 300)))) ==
    Qmax 0 (currentTime s - 10) /\
  currentTime (state (controller
                 (fst (forwardButton p (currentTime s) (duration s) 300)))) ==
    Qmin (duration s) (currentTime s + 10).
Proof.
  apply (rewind_forward_buttons (fst (seekTo PlaybackExamples.loaded 2 200)) 300);
    vm_compute; discriminate.
Defined.

(** ** animate and play *)


(** X21: when a frame has brought a playing controller to the end of a
    track, the controller has stopped but holds the handle of the frame
    it requested last; that frame does nothing when it fires, and a
    following play() sets the playing flag without requesting a frame,
    since it requests one only while no handle is held. *)
Theorem play_after_completion
    (p : Player) (timestamp timestamp' now : Q) (handle handle' handle'' : positive) :
  let s := state (controller p) in
  isPlaying s = true ->
  features (trackData (controller p)) <> [] ->
  duration s <= currentTime s + (timestamp - lastFrameTime s) / 1000 * speed s ->
  let p1 := fst (animate p timestamp now handle) in
  let p2 := fst (play p1 now handle'') in
  isPlaying (state (controller p1)) = false /\
  frameId p1 = Some handle /\
  animate p1 timestamp' now handle' = (p1, []) /\
  isPlaying (state (controller p2)) = true /\
  frameId p2 = Some handle /\
  snd (play p1 now handle'') = [notifyStateChange (controller p2)].
Proof.
  intros s Hplaying Hne Hend p1 p2. subst s p1 p2.
  assert (H1 : isPlaying (state (controller (fst (animate p timestamp now handle)))) = false /\
               frameId (fst (animate p timestamp now handle)) = Some handle /\
               trackData (controller (fst (animate p timestamp now handle))) =
                 trackData (controller p)).
  { unfold animate. rewrite Hplaying. cbn [negb].
    cbn [currentTime duration isPlaying speed lastFrameTime state_currentIndex].
    apply JSFacts.le_spec in Hend. unfold JS.ge. rewrite Hend.
    unfold pause. destruct (frameId p); repeat split. }
  destruct H1 as (Hstop & Hframe & Htrack).
  set (p1 := fst (animate p timestamp now handle)) in *. clearbody p1.
  split; [exact Hstop|]. split; [exact Hframe|].
  split; [unfold animate; rewrite Hstop; reflexivity|].
  unfold play. rewrite Htrack, Hframe.
  destruct (features (trackData (controller p))); [congruence|].
  repeat split.
Qed.

Lemma play_after_completion_witness :
  let p := PlaybackExamples.playing in
  let p1 := fst (animate p 5000 5001 2%positive) in
  let p2 := fst (play p1 5001 4%positive) in
  isPlaying (state (controller p1)) = false /\
  frameId p1 = Some 2%positive /\
  animate p1 5016 5001 3%positive = (p1, []) /\
  isPlaying (state (controller p2)) = true /\
  frameId p2 = Some 2%positive /\
  snd (play p1 5001 4%positive) = [notifyStateChange (controller p2)].
Proof.
  apply (play_after_completion PlaybackExamples.playing 5000 5016 5001
           2%positive 3%positive 4%positive).
  - reflexivity.
  - discriminate.
  - vm_compute. discriminate.
Defined.

(** ** The camera lock *)

Section CameraLock.

Context `{M : MathLib}.

(** X22: the target of the locked camera depends on the captured
    offset only through its zoom: the captured [x] and [y] are never
    used.  With a captured zoom of 0, as on a new controller whose lock
    was engaged before the vehicle had a position, the camera is
    centered on the vehicle itself. *)
Theorem camera_uses_only_captured_zoom
    (c1 c2 : Controller) (map : MapView) (position : Position) (bearing : Q) :
  (off_zoom (offset (camera c1)) = off_zoom (offset (camera c2)) ->
   calculateCameraOffset c1 map bearing = calculateCameraOffset c2 map bearing /\
   updateCamera c1 map position bearing = updateCamera c2 map position bearing) /\
  (off_zoom (offset (camera c1)) == 0 ->
   exists center,
     updateCamera c1 map position bearing = [EaseTo center bearing 60 0] /\
     fst center == lng position /\ snd center == lat position).
Proof.
  split.
  - intro Hz. unfold updateCamera, calculateCameraOffset. rewrite Hz.
    split; reflexivity.
  - intro Hz. unfold updateCamera, calculateCameraOffset. eexists.
    split; [reflexivity|]. cbn [fst snd]. rewrite Hz. split; ring.
Qed.

End CameraLock.

(** X23: toggling the camera lock twice gives back the lock flag.
    Engaging the lock stores the offset of the map center from the
    vehicle and the zoom of the map when the vehicle has a position,
    and keeps the old offset when it has none; releasing the lock keeps
    the offset. *)
Theorem toggleCameraLock_twice (c : Controller) (map map' : MapView) :
  let c1 := fst (toggleCameraLock c map) in
  let c2 := fst (toggleCameraLock c1 map') in
  isLocked (camera c1) = negb (isLocked (camera c)) /\
  snd (toggleCameraLock c map) = negb (isLocked (camera c)) /\
  isLocked (camera c2) = isLocked (camera c) /\
  state c1 = state c /\ trackData c1 = trackData c /\
  (isLocked (camera c) = true -> offset (camera c1) = offset (camera c)) /\
  (isLocked (camera c) = false ->
   match getCurrentPosition map with
   | Some vehicle =>
       offset (camera c1) =
         mkOffset (fst (getCenter map) - fst vehicle)
                  (snd (getCenter map) - snd vehicle) (getZoom map)
   | None => offset (camera c1) = offset (camera c)
   end /\
   offset (camera c2) = offset (camera c1)).
Proof.
  cbv zeta. unfold toggleCameraLock, updateCameraOffset.
  destruct c as [s td [locked off damping]]. cbn [camera isLocked offset state trackData].
  destruct locked; cbn [negb fst snd camera isLocked offset state trackData].
  - destruct (getCurrentPosition map'); cbn;
      repeat first [intro H; try discriminate H; clear H | split]; reflexivity.
  - destruct (getCurrentPosition map); cbn;
      repeat first [intro H; try discriminate H; clear H | split]; reflexivity.
Qed.

(** ** The vehicle layer *)

(** X24: an initialized layer whose source exists stores the position
    it is given, so that getCurrentPosition returns it, and hands it to
    the source; it stores a bearing of exactly 0 as the bearing it had
    before.  A layer that is not initialized or has no source ignores
    the update.  After the layer has taken the update of a worker
    reply, engaging the camera lock captures the offset of the map
    center from the position of that reply. *)
Theorem layer_position_round_trip
    `{M : MathLib} (l : Layer) (coordinates : Q * Q) (bearing speed now : Q)
    (c : Controller) (map : MapView) (center : Q * Q) (zoom : Q)
    (position : Position) (velocity : Vec2) (timestamp : Q) :
  let l' := fst (layer_updatePosition l coordinates bearing speed now) in
  (isInitialized l = true -> hasSource l = true ->
   layer_getCurrentPosition l' = Some coordinates /\
   snd (layer_updatePosition l coordinates bearing speed now) =
     Some (mkPointFeature coordinates bearing speed) /\
   (bearing == 0 -> ls_bearing (currentState l') = ls_bearing (currentState l)) /\
   (~ bearing == 0 -> ls_bearing (currentState l') = bearing) /\
   (isLocked (camera c) = false ->
    let sent := handleWorkerMessage c map
                  (PoseReply (Some position) bearing speed velocity timestamp) in
    let l2 := fold_left (fun x e => layer_apply x now e) sent l in
    let c' := fst (toggleCameraLock c
                     (mkMapView center zoom (layer_getCurrentPosition l2))) in
    offset (camera c') =
      mkOffset (fst center - lng position) (snd center - lat position) zoom)) /\
  (isInitialized l = false \/ hasSource l = false ->
   layer_updatePosition l coordinates bearing speed now = (l, None)).
Proof.
  cbv zeta. split.
  - intros Hi Hs. unfold layer_updatePosition, layer_getCurrentPosition.
    rewrite Hi, Hs. cbn [negb fst snd currentState ls_position ls_bearing].
    split; [reflexivity|]. split; [reflexivity|].
    split; [|split].
    + intro Hb. unfold JS.or_num, JS.eqb. apply Qeq_eq_bool in Hb.
      rewrite Hb. reflexivity.
    + intro Hb. unfold JS.or_num, JS.eqb.
      destruct (Qeq_bool bearing 0) eqn:E; [|reflexivity].
      apply Qeq_bool_iff in E. contradiction.
    + intro Hfree. unfold handleWorkerMessage. rewrite Hfree.
      cbn [fold_left layer_apply]. unfold layer_updatePosition.
      rewrite Hi, Hs. cbn [negb fst].
      unfold toggleCameraLock, updateCameraOffset, layer_getCurrentPosition.
      cbn [camera isLocked]. rewrite Hfree. reflexivity.
  - intros [Hi|Hs]; unfold layer_updatePosition.
    + rewrite Hi. reflexivity.
    + rewrite Hs. destruct (isInitialized l); reflexivity.
Qed.
